(** * A shallow embedding of the opteryx native extension (src/lib.rs,
    src/opteryx_dialect.rs, src/sqloxide.rs, src/temporal_parser.rs).

    Rust [char]s are Unicode scalar values ([N]), a Rust [String] is the
    list of its chars, a Rust [&[u8]] is a [list Byte.byte].  Fallible Rust
    code returns a [result]; a Rust panic is an explicit outcome of the
    parser monad of the dialect hook. *)

From Stdlib Require Import List String Ascii NArith ZArith Lia Bool.
From Stdlib Require Import DecimalString.
Import ListNotations.

Open Scope N_scope.

(** ** Rust prelude *)

Inductive result (T E : Type) : Type :=
| Ok (t : T)
| Err (e : E).
Arguments Ok {T E} t.
Arguments Err {T E} e.

Definition res_bind {T U E} (r : result T E) (f : T -> result U E) : result U E :=
  match r with
  | Ok t => f t
  | Err e => Err e
  end.

(** The [?] operator. *)
Notation "'let?' x ':=' r 'in' k" := (res_bind r (fun x => k))
  (at level 200, x name, r at level 100, right associativity).

Definition map_err {T E F} (r : result T E) (f : E -> F) : result T F :=
  match r with
  | Ok t => Ok t
  | Err e => Err (f e)
  end.

(** A Rust [char] and a Rust [String]. *)
Definition char := N.
Definition rstring := list char.

(** A Rust string literal written as an ASCII Rocq string. *)
Definition lit (s : string) : rstring := map N_of_ascii (list_ascii_of_string s).

Definition backslash : char := 92.
Definition dollar : char := 36.

(** [char::is_ascii_digit] *)
Definition is_ascii_digit (c : char) : bool := (48 <=? c) && (c <=? 57).

(** ** src/lib.rs: [convert_python_to_rust_backrefs]

    [while let Some(ch) = chars.next()] with [chars.peek()] for the next
    char; [result] is the output buffer the loop pushes to. *)
Fixpoint convert_loop (chars : rstring) (result : rstring) : rstring :=
  match chars with
  | [] => result
  | ch :: rest =>
      if ch =? backslash then
        match rest with
        | next_ch :: _ =>
            if is_ascii_digit next_ch
            then convert_loop rest (result ++ [dollar])   (* \1 -> $1, digit not consumed *)
            else convert_loop rest (result ++ [ch])       (* keep the backslash *)
        | [] => convert_loop rest (result ++ [ch])         (* backslash at end *)
        end
      else convert_loop rest (result ++ [ch])
  end.

Definition convert_python_to_rust_backrefs (replacement : rstring) : rstring :=
  convert_loop replacement [].

(** ** The regex crate's replacement interpolation ([Captures::expand],
    [regex_automata::util::interpolate::string]), on which [replace_all]
    relies for every match.  [caps] gives the text of each group by index,
    [names] maps group names to indices. *)

Inductive Ref :=
| RNumber (i : nat)
| RNamed (name : rstring).

(** [is_valid_cap_letter] *)
Definition is_valid_cap_letter (c : char) : bool :=
  ((48 <=? c) && (c <=? 57)) || ((97 <=? c) && (c <=? 122))
  || ((65 <=? c) && (c <=? 90)) || (c =? 95).

(** [str::parse::<usize>] on a 64-bit target: an optional [+] and at least
    one decimal digit, no overflow. *)
Fixpoint digits_value (acc : N) (cs : rstring) : option N :=
  match cs with
  | [] => Some acc
  | c :: rest => if is_ascii_digit c then digits_value (acc * 10 + (c - 48)) rest else None
  end.

Definition parse_usize (cs : rstring) : option nat :=
  let ds := match cs with 43 :: ds => ds | _ => cs end in
  match ds with
  | [] => None
  | _ => match digits_value 0 ds with
         | Some v => if v <? 2 ^ 64 then Some (N.to_nat v) else None
         | None => None
         end
  end.

Definition ref_of (cap : rstring) : Ref :=
  match parse_usize cap with
  | Some i => RNumber i
  | None => RNamed cap
  end.

Fixpoint take_while_cap (cs : rstring) : rstring * rstring :=
  match cs with
  | c :: rest =>
      if is_valid_cap_letter c
      then let (n, r) := take_while_cap rest in (c :: n, r)
      else ([], cs)
  | [] => ([], [])
  end.

Fixpoint take_until_brace (cs : rstring) : option (rstring * rstring) :=
  match cs with
  | [] => None
  | c :: rest =>
      if c =? 125 then Some ([], rest)
      else match take_until_brace rest with
           | Some (n, r) => Some (c :: n, r)
           | None => None
           end
  end.

(** [find_cap_ref] on a replacement starting with [$]: the reference and
    the rest of the replacement after it. *)
Definition find_cap_ref (rep : rstring) : option (Ref * rstring) :=
  match rep with
  | c0 :: ((c1 :: _) as after) =>
      if negb (c0 =? dollar) then None
      else if c1 =? 123 then
        (* find_cap_ref_braced *)
        match take_until_brace (tl after) with
        | Some (cap, r) => Some (ref_of cap, r)
        | None => None
        end
      else
        let (cap, r) := take_while_cap after in
        match cap with
        | [] => None
        | _ => Some (ref_of cap, r)
        end
  | _ => None
  end.

Fixpoint lookup_name (names : list (rstring * nat)) (n : rstring) : option nat :=
  match names with
  | [] => None
  | (k, i) :: rest =>
      if list_eq_dec N.eq_dec k n then Some i else lookup_name rest n
  end.

Definition group_text (caps : list (option rstring)) (i : nat) : rstring :=
  match nth_error caps i with
  | Some (Some t) => t
  | _ => []
  end.

(** The interpolation loop; every round consumes at least one char, so
    [S (length rep)] rounds suffice. *)
Fixpoint expand_go (fuel : nat) (caps : list (option rstring))
    (names : list (rstring * nat)) (rep : rstring) : rstring :=
  match fuel with
  | O => rep
  | S fuel' =>
      match rep with
      | [] => []
      | c :: rest =>
          if c =? dollar then
            match rest with
            | c2 :: rest2 =>
                if c2 =? dollar then dollar :: expand_go fuel' caps names rest2
                else match find_cap_ref rep with
                     | None => dollar :: expand_go fuel' caps names rest
                     | Some (RNumber i, r) => group_text caps i ++ expand_go fuel' caps names r
                     | Some (RNamed n, r) =>
                         match lookup_name names n with
                         | Some i => group_text caps i
                         | None => []
                         end ++ expand_go fuel' caps names r
                     end
            | [] => [dollar]
            end
          else c :: expand_go fuel' caps names rest
      end
  end.

Definition expand_str (caps : list (option rstring)) (names : list (rstring * nat))
    (rep : rstring) : rstring :=
  expand_go (S (List.length rep)) caps names rep.

(** ** UTF-8 ([str::from_utf8], [str::as_bytes]) *)

Definition byte := Byte.byte.

(** [std::str::Utf8Error] *)
Record Utf8Error := { valid_up_to : nat; error_len : option nat }.

Definition nat_str (n : nat) : string := NilEmpty.string_of_uint (Nat.to_uint n).

(** Its [Display]. *)
Definition utf8_error_msg (e : Utf8Error) : string :=
  match error_len e with
  | Some n => ("invalid utf-8 sequence of " ++ nat_str n ++ " bytes from index "
               ++ nat_str (valid_up_to e))%string
  | None => ("incomplete utf-8 byte sequence from index " ++ nat_str (valid_up_to e))%string
  end.

Definition is_cont (x : N) : bool := (0x80 <=? x) && (x <=? 0xBF).

(** The second byte of a three- and of a four-byte sequence
    (no overlong forms, no surrogates, nothing above U+10FFFF). *)
Definition second_ok3 (x0 x1 : N) : bool :=
  if x0 =? 0xE0 then (0xA0 <=? x1) && (x1 <=? 0xBF)
  else if x0 =? 0xED then (0x80 <=? x1) && (x1 <=? 0x9F)
  else is_cont x1.

Definition second_ok4 (x0 x1 : N) : bool :=
  if x0 =? 0xF0 then (0x90 <=? x1) && (x1 <=? 0xBF)
  else if x0 =? 0xF4 then (0x80 <=? x1) && (x1 <=? 0x8F)
  else is_cont x1.

Definition cons_ok {E} (c : char) (r : result rstring E) : result rstring E :=
  match r with
  | Ok cs => Ok (c :: cs)
  | Err e => Err e
  end.

(** [run_utf8_validation] together with the decoding of [str::chars]; the
    code point of a sequence is written with [mod] and [*] where core uses
    masks and shifts (the same numbers on these ranges). *)
Fixpoint from_utf8_at (i : nat) (bs : list byte) : result rstring Utf8Error :=
  match bs with
  | [] => Ok []
  | b0 :: r0 =>
      let x0 := Byte.to_N b0 in
      let err l := Err {| valid_up_to := i; error_len := l |} in
      if x0 <? 0x80 then cons_ok x0 (from_utf8_at (i + 1) r0)
      else if (0xC2 <=? x0) && (x0 <=? 0xDF) then
        match r0 with
        | [] => err None
        | b1 :: r1 =>
            let x1 := Byte.to_N b1 in
            if is_cont x1
            then cons_ok ((x0 mod 32) * 64 + x1 mod 64) (from_utf8_at (i + 2) r1)
            else err (Some 1%nat)
        end
      else if (0xE0 <=? x0) && (x0 <=? 0xEF) then
        match r0 with
        | [] => err None
        | b1 :: r1 =>
            let x1 := Byte.to_N b1 in
            if second_ok3 x0 x1 then
              match r1 with
              | [] => err None
              | b2 :: r2 =>
                  let x2 := Byte.to_N b2 in
                  if is_cont x2
                  then cons_ok ((x0 mod 16) * 4096 + (x1 mod 64) * 64 + x2 mod 64)
                         (from_utf8_at (i + 3) r2)
                  else err (Some 2%nat)
              end
            else err (Some 1%nat)
        end
      else if (0xF0 <=? x0) && (x0 <=? 0xF4) then
        match r0 with
        | [] => err None
        | b1 :: r1 =>
            let x1 := Byte.to_N b1 in
            if second_ok4 x0 x1 then
              match r1 with
              | [] => err None
              | b2 :: r2 =>
                  let x2 := Byte.to_N b2 in
                  if is_cont x2 then
                    match r2 with
                    | [] => err None
                    | b3 :: r3 =>
                        let x3 := Byte.to_N b3 in
                        if is_cont x3
                        then cons_ok ((x0 mod 8) * 262144 + (x1 mod 64) * 4096
                                      + (x2 mod 64) * 64 + x3 mod 64)
                               (from_utf8_at (i + 4) r3)
                        else err (Some 3%nat)
                    end
                  else err (Some 2%nat)
              end
            else err (Some 1%nat)
        end
      else err (Some 1%nat)
  end.

Definition from_utf8 (bs : list byte) : result rstring Utf8Error := from_utf8_at 0 bs.

Definition byte_of_N (n : N) : byte :=
  match Byte.of_N n with
  | Some b => b
  | None => Byte.x00
  end.

(** [char::encode_utf8] *)
Definition encode_char (c : char) : list byte :=
  map byte_of_N
    (if c <? 0x80 then [c]
     else if c <? 0x800 then [0xC0 + c / 64; 0x80 + c mod 64]
     else if c <? 0x10000 then [0xE0 + c / 4096; 0x80 + (c / 64) mod 64; 0x80 + c mod 64]
     else [0xF0 + c / 262144; 0x80 + (c / 4096) mod 64; 0x80 + (c / 64) mod 64;
           0x80 + c mod 64]).

(** [String::as_bytes] *)
Definition as_bytes (s : rstring) : list byte := flat_map encode_char s.

(** A Unicode scalar value, the values a Rust [char] can hold. *)
Definition is_scalar (c : char) : bool :=
  (c <? 0xD800) || ((0xE000 <=? c) && (c <=? 0x10FFFF)).

(** ** Python objects as pyo3 sees them *)

Inductive PyObj :=
| PyBytes (b : list byte)
| PyStr (s : rstring)        (* the code points of a Python [str] *)
| PyOther (type_name : string).

Inductive PyErr :=
| PyValueError (msg : string)
| PyTypeError (msg : string)
| PyUnicodeEncodeError (msg : string).

Definition py_type_name (o : PyObj) : string :=
  match o with
  | PyBytes _ => "bytes"
  | PyStr _ => "str"
  | PyOther n => n
  end.

(** [is_instance_of::<PyBytes>] *)
Definition is_instance_of_bytes (o : PyObj) : bool :=
  match o with
  | PyBytes _ => true
  | _ => false
  end.

(** [extract::<&[u8]>]: only a [bytes] object. *)
Definition extract_bytes (o : PyObj) : result (list byte) PyErr :=
  match o with
  | PyBytes b => Ok b
  | _ => Err (PyTypeError ("'" ++ py_type_name o ++ "' object cannot be converted to 'PyBytes'"))
  end.

(** [extract::<String>]: only a [str] object, and one without lone surrogates. *)
Definition extract_string (o : PyObj) : result rstring PyErr :=
  match o with
  | PyStr s =>
      if forallb is_scalar s then Ok s
      else Err (PyUnicodeEncodeError "'utf-8' codec can't encode character: surrogates not allowed")
  | _ => Err (PyTypeError ("'" ++ py_type_name o ++ "' object cannot be converted to 'PyString'"))
  end.

(** ** The regex crate, as [regex_replace_rust] uses it

    [Regex] works on text ([A = char]), [regex::bytes::Regex] on bytes
    ([A = byte]).  Both are compiled from a [&str]; [rx_replace_all re t rep]
    is [re.replace_all(t, rep)], [rx_is_match re t] is [re.is_match(t)]. *)
Record Engine (A : Type) := mkEngine {
  rx : Type;
  rx_new : rstring -> result rx string;
  rx_is_match : rx -> list A -> bool;
  rx_replace_all : rx -> list A -> list A -> list A
}.
Arguments rx {A}.
Arguments rx_new {A}.
Arguments rx_is_match {A}.
Arguments rx_replace_all {A}.

(** The documented behaviour of [replace_all] that the claims rely on: with
    no match, the text comes back unchanged ([Cow::Borrowed]). *)
Definition replace_all_no_match {A} (E : Engine A) : Prop :=
  forall re t rep, rx_is_match E re t = false -> rx_replace_all E re t rep = t.

(** ** src/lib.rs: [regex_replace_rust] *)

Section RegexReplace.

Variable SE : Engine char.   (* regex::Regex *)
Variable BE : Engine byte.   (* regex::bytes::Regex *)

(** Bytes mode: [for item_opt in data { ... }], [out] is [result]. *)
Fixpoint bytes_loop (re : rx BE) (rust_replacement : rstring)
    (data : list (option PyObj)) (out : list (option PyObj))
    : result (list (option PyObj)) PyErr :=
  match data with
  | [] => Ok out
  | None :: rest => bytes_loop re rust_replacement rest (out ++ [None])
  | Some item :: rest =>
      let? item_bytes := extract_bytes item in
      let replaced := rx_replace_all BE re item_bytes (as_bytes rust_replacement) in
      bytes_loop re rust_replacement rest (out ++ [Some (PyBytes replaced)])
  end.

(** String mode. *)
Fixpoint string_loop (re : rx SE) (rust_replacement : rstring)
    (data : list (option PyObj)) (out : list (option PyObj))
    : result (list (option PyObj)) PyErr :=
  match data with
  | [] => Ok out
  | None :: rest => string_loop re rust_replacement rest (out ++ [None])
  | Some item :: rest =>
      match extract_bytes item with
      | Ok item_bytes =>
          (* Item is bytes, convert to string, replace, convert back *)
          let? item_str := map_err (from_utf8 item_bytes)
                             (fun e => PyValueError ("Invalid UTF-8: " ++ utf8_error_msg e)) in
          let replaced := rx_replace_all SE re item_str rust_replacement in
          string_loop re rust_replacement rest (out ++ [Some (PyBytes (as_bytes replaced))])
      | Err _ =>
          (* Item is string *)
          let? item_str := extract_string item in
          let replaced := rx_replace_all SE re item_str rust_replacement in
          string_loop re rust_replacement rest (out ++ [Some (PyBytes (as_bytes replaced))])
      end
  end.

Definition regex_replace_rust (data : list (option PyObj)) (pattern replacement : PyObj)
    : result (list (option PyObj)) PyErr :=
  let is_bytes := is_instance_of_bytes pattern in
  if is_bytes then
    let? pattern_bytes := extract_bytes pattern in
    let? replacement_str :=
      match extract_bytes replacement with
      | Ok bytes =>
          map_err (from_utf8 bytes)
            (fun e => PyValueError ("Invalid UTF-8 in replacement: " ++ utf8_error_msg e))
      | Err _ =>
          match extract_string replacement with
          | Ok s => Ok s
          | Err _ => Err (PyValueError "Replacement must be bytes or string")
          end
      end in
    let rust_replacement := convert_python_to_rust_backrefs replacement_str in
    let? pattern_str := map_err (from_utf8 pattern_bytes)
                          (fun e => PyValueError ("Invalid UTF-8 in pattern: " ++ utf8_error_msg e)) in
    let? re := map_err (rx_new BE pattern_str)
                 (fun e => PyValueError ("Invalid regex pattern: " ++ e)) in
    bytes_loop re rust_replacement data []
  else
    let? pattern_str := extract_string pattern in
    let? replacement_str := extract_string replacement in
    let rust_replacement := convert_python_to_rust_backrefs replacement_str in
    let? re := map_err (rx_new SE pattern_str)
                 (fun e => PyValueError ("Invalid regex pattern: " ++ e)) in
    string_loop re rust_replacement data [].

End RegexReplace.

(** ** A concrete regex engine for worked examples: a pattern made of
    ordinary characters only (no metacharacter, not empty) matches itself
    literally; any other pattern is refused at compile time.  It agrees with
    the regex crate on such patterns and on [$]-free replacements. *)

Definition regex_metachars : rstring := lit "\.+*?()|[]{}^$#&-~".

Definition literal_pattern_ok (p : rstring) : bool :=
  match p with
  | [] => false
  | _ => forallb (fun c => negb (existsb (N.eqb c) regex_metachars)) p
  end.

Section LiteralEngine.

Variable A : Type.
Variable eqb : A -> A -> bool.

Fixpoint strip_prefix (p t : list A) : option (list A) :=
  match p, t with
  | [], _ => Some t
  | x :: p', y :: t' => if eqb x y then strip_prefix p' t' else None
  | _ :: _, [] => None
  end.

Fixpoint lit_is_match (p t : list A) : bool :=
  match strip_prefix p t with
  | Some _ => true
  | None =>
      match t with
      | [] => false
      | _ :: t' => lit_is_match p t'
      end
  end.

(** Leftmost, non-overlapping replacement of every occurrence of [p]. *)
Fixpoint lit_replace_go (fuel : nat) (p rep t : list A) : list A :=
  match fuel with
  | O => t
  | S fuel' =>
      match strip_prefix p t with
      | Some t' => rep ++ lit_replace_go fuel' p rep t'
      | None =>
          match t with
          | [] => []
          | y :: t' => y :: lit_replace_go fuel' p rep t'
          end
      end
  end.

Definition lit_replace_all (p t rep : list A) : list A :=
  lit_replace_go (S (List.length t)) p rep t.

End LiteralEngine.

Arguments strip_prefix {A}.
Arguments lit_is_match {A}.
Arguments lit_replace_go {A}.
Arguments lit_replace_all {A}.

Definition lit_compile (p : rstring) : result rstring string :=
  if literal_pattern_ok p then Ok p else Err "unsupported pattern"%string.

Definition literal_str_engine : Engine char :=
  {| rx := rstring;
     rx_new := lit_compile;
     rx_is_match := lit_is_match N.eqb;
     rx_replace_all := lit_replace_all N.eqb |}.

Definition literal_bytes_engine : Engine byte :=
  {| rx := rstring;
     rx_new := lit_compile;
     rx_is_match := fun p t => lit_is_match Byte.eqb (as_bytes p) t;
     rx_replace_all := fun p t rep => lit_replace_all Byte.eqb (as_bytes p) t rep |}.

(** A Python value built from an ASCII Rocq string. *)
Definition pystr (s : string) : PyObj := PyStr (lit s).
Definition pybytes (s : string) : PyObj := PyBytes (as_bytes (lit s)).

(** ** Statement helpers for the batch replacement *)

(** The text an item is matched as in string mode: a [bytes] item decoded
    as UTF-8, any other item extracted as a [str]. *)
Definition item_text (x : PyObj) : option rstring :=
  match x with
  | PyBytes b => match from_utf8 b with Ok s => Some s | Err _ => None end
  | _ => match extract_string x with Ok s => Some s | Err _ => None end
  end.

(** The content of an item as a byte string. *)
Definition item_content (x : PyObj) : list byte :=
  match x with
  | PyBytes b => b
  | PyStr s => as_bytes s
  | PyOther _ => []
  end.

(** The present item [x] contains no match of the compiled [pattern]. *)
Definition unmatched_item (SE : Engine char) (BE : Engine byte) (pattern x : PyObj) : Prop :=
  if is_instance_of_bytes pattern then
    exists pb ps re b, pattern = PyBytes pb /\ from_utf8 pb = Ok ps /\ rx_new BE ps = Ok re
                       /\ x = PyBytes b /\ rx_is_match BE re b = false
  else
    exists ps re s, extract_string pattern = Ok ps /\ rx_new SE ps = Ok re
                    /\ item_text x = Some s /\ rx_is_match SE re s = false.




(** Relation between an input slot and an output slot. *)
Definition slot_rel (R : PyObj -> PyObj -> Prop) (d o : option PyObj) : Prop :=
  match d, o with
  | None, None => True
  | Some x, Some y => R x y
  | _, _ => False
  end.

(** ** sqlparser's tokens, expressions and errors, as far as the dialect
    hook of src/opteryx_dialect.rs uses them *)

Inductive Keyword := DIV | SELECT | FROM | WHERE | NoKeyword.

Module Token.
Inductive Token :=
| EOF
| Word (value : string) (keyword : Keyword)
| Number (n : string)
| Whitespace
| AtArrow            (* @> *)
| Gt                 (* > *)
| Plus
| Comma.
End Token.

Definition token_eq_dec (a b : Token.Token) : {a = b} + {a <> b}.
Proof. decide equality; try apply string_dec; decide equality. Defined.

Definition keyword_eq_dec (a b : Keyword) : {a = b} + {a <> b}.
Proof. decide equality. Defined.

Module BinaryOperator.
Inductive BinaryOperator :=
| Plus
| Gt
| MyIntegerDivide
| AtArrow
| Custom (name : string).
End BinaryOperator.

Inductive Expr :=
| Identifier (name : string)
| Value (v : string)
| BinaryOp (left : Expr) (op : BinaryOperator.BinaryOperator) (right : Expr).

Inductive ParserError :=
| TokenizerError (msg : string)
| ParserErrorMsg (msg : string).   (* ParserError::ParserError *)

Definition parser_error_msg (e : ParserError) : string :=
  match e with
  | TokenizerError m => m
  | ParserErrorMsg m => m
  end.

(** ** The parser as a state monad with panics

    The state is the parser's token buffer from its current index on.  A
    Rust panic ([unwrap] on an [Err]) unwinds out of the parser: [Panic]. *)

Inductive Outcome (A : Type) :=
| Done (a : A) (rest : list Token.Token)
| Panic (msg : string).
Arguments Done {A} a rest.
Arguments Panic {A} msg.

Definition PM (A : Type) := list Token.Token -> Outcome A.

Definition pm_ret {A} (a : A) : PM A := fun ts => Done a ts.

Definition pm_bind {A B} (m : PM A) (k : A -> PM B) : PM B :=
  fun ts => match m ts with
            | Done a ts' => k a ts'
            | Panic msg => Panic msg
            end.

Notation "x <- m ;; k" := (pm_bind m (fun x => k))
  (at level 61, m at next level, right associativity).

(** [peek_token]: the next token that is not whitespace, [EOF] at the end. *)
Fixpoint peek_token (ts : list Token.Token) : Token.Token :=
  match ts with
  | [] => Token.EOF
  | Token.Whitespace :: rest => peek_token rest
  | t :: _ => t
  end.

(** [advance_token]: step past the whitespace and the next token. *)
Fixpoint advance_token (ts : list Token.Token) : list Token.Token :=
  match ts with
  | [] => []
  | Token.Whitespace :: rest => advance_token rest
  | _ :: rest => rest
  end.

(** [Parser::parse_keyword] *)
Definition parse_keyword (expected : Keyword) : PM bool :=
  fun ts => match peek_token ts with
            | Token.Word _ k =>
                if keyword_eq_dec k expected then Done true (advance_token ts)
                else Done false ts
            | _ => Done false ts
            end.

(** [Parser::consume_token] *)
Definition consume_token (expected : Token.Token) : PM bool :=
  fun ts => if token_eq_dec (peek_token ts) expected then Done true (advance_token ts)
            else Done false ts.

Definition unwrap_msg (e : ParserError) : string :=
  ("called `Result::unwrap()` on an `Err` value: " ++ parser_error_msg e)%string.

(** [Result::unwrap] *)
Definition unwrap {A} (r : result A ParserError) : PM A :=
  fun ts => match r with
            | Ok a => Done a ts
            | Err e => Panic (unwrap_msg e)
            end.

(** ** src/opteryx_dialect.rs: [OpteryxDialect::parse_infix]

    [parse_expr] is [Parser::parse_expr], the parser's own entry point for
    an expression, which the hook calls back. *)
Definition parse_infix (parse_expr : PM (result Expr ParserError))
    (expr : Expr) (_precedence : nat) : PM (option (result Expr ParserError)) :=
  is_div <- parse_keyword DIV ;;
  if is_div then
    r <- parse_expr ;;
    right <- unwrap r ;;
    pm_ret (Some (Ok (BinaryOp expr BinaryOperator.MyIntegerDivide right)))
  else
    at_arrow <- consume_token Token.AtArrow ;;
    if at_arrow then
      gt <- consume_token Token.Gt ;;
      if gt then
        r <- parse_expr ;;
        right <- unwrap r ;;
        pm_ret (Some (Ok (BinaryOp expr (BinaryOperator.Custom "ArrayContainsAll") right)))
      else
        r <- parse_expr ;;
        right <- unwrap r ;;
        pm_ret (Some (Ok (BinaryOp expr BinaryOperator.AtArrow right)))
    else pm_ret None.

(** A stand-in for [Parser::parse_expr] on the simplest operands: a number
    or an identifier; anything else, the end of input included, is the
    parser's "Expected: an expression" error. *)
Definition parse_expr_atom : PM (result Expr ParserError) :=
  fun ts => match peek_token ts with
            | Token.Number n => Done (Ok (Value n)) (advance_token ts)
            | Token.Word w NoKeyword => Done (Ok (Identifier w)) (advance_token ts)
            | Token.EOF => Done (Err (ParserErrorMsg "Expected: an expression, found: EOF")) ts
            | _ => Done (Err (ParserErrorMsg "Expected: an expression")) ts
            end.

(** ** Entry points *)

Definition nl_tab : string :=
  String (ascii_of_nat 10) (String (ascii_of_nat 9) EmptyString).

(** sqlparser's dialects (the ones sqloxide names, and Opteryx's). *)
Inductive Dialect :=
| OpteryxDialect | AnsiDialect | BigQueryDialect | ClickHouseDialect | GenericDialect
| HiveDialect | MsSqlDialect | MySqlDialect | PostgreSqlDialect | RedshiftSqlDialect
| SnowflakeDialect | SQLiteDialect.

Section EntryPoints.

(** sqlparser's [Statement], [Parser::parse_sql], its [Display], and
    pythonize's two directions ([PyValue] is the Python object tree; the
    error is the [Display] of [PythonizeError]). *)
Variable Statement : Type.
Variable PyValue : Type.
Variable Parser_parse_sql : Dialect -> rstring -> result (list Statement) ParserError.
Variable statement_to_string : Statement -> string.
Variable pythonize : list Statement -> result PyValue string.
Variable depythonize : PyValue -> result (list Statement) string.

(** src/lib.rs: [parse_sql] *)
Definition parse_sql (sql : rstring) (_dialect : rstring) : result PyValue PyErr :=
  let chosen_dialect := OpteryxDialect in
  let parse_result := Parser_parse_sql chosen_dialect sql in
  match parse_result with
  | Ok statements =>
      map_err (pythonize statements)
        (fun msg => PyValueError ("Python object serialization failed." ++ nl_tab ++ msg))
  | Err e =>
      Err (PyValueError ("Query parsing failed." ++ nl_tab ++ parser_error_msg e))
  end.

(** src/sqloxide.rs: [restore_ast] *)
Definition restore_ast (ast : PyValue) : result (list string) PyErr :=
  let parse_result := depythonize ast in
  match parse_result with
  | Ok statements => Ok (map statement_to_string statements)
  | Err e => Err (PyValueError ("Query serialization failed." ++ nl_tab ++ e))
  end.

End EntryPoints.

(** ** src/temporal_parser.rs *)

Record TemporalFilter := { relation : rstring; temporal_clause : rstring }.

Record TemporalExtractionResult := { clean_sql : rstring; filters : list TemporalFilter }.

Definition extract_temporal_for_clauses (sql : rstring) : TemporalExtractionResult :=
  {| clean_sql := sql; filters := [] |}.

(** ** src/opteryx_dialect.rs: identifier characters

    [is_alphabetic] is [char::is_alphabetic], Unicode's Alphabetic
    property. *)
Section IdentifierChars.

Variable is_alphabetic : char -> bool.

Definition is_identifier_start (ch : char) : bool :=
  is_alphabetic ch || (ch =? 95) || (ch =? 36) || (ch =? 64)
  || ((0x80 <=? ch) && (ch <=? 0xFFFF)).

Definition is_identifier_part (ch : char) : bool :=
  is_identifier_start ch || is_ascii_digit ch || (ch =? 45).

End IdentifierChars.

(** [char::is_alphabetic] on ASCII: the letters. *)
Definition is_ascii_alphabetic (ch : char) : bool :=
  ((65 <=? ch) && (ch <=? 90)) || ((97 <=? ch) && (ch <=? 122)).

(** ** src/sqloxide.rs: [string_to_dialect] and [parse_sql]

    [to_lowercase] is [str::to_lowercase].  What the function prints goes
    to the list of stdout lines it returns beside the dialect. *)

Definition rstring_eqb (a b : rstring) : bool :=
  if list_eq_dec N.eq_dec a b then true else false.

Definition dialect_fallback_notice : string :=
  "The dialect you chose was not recognized, falling back to 'generic'".

Module Sqloxide.

Section WithLowercase.

Variable to_lowercase : rstring -> rstring.

Definition string_to_dialect (dialect : rstring) : Dialect * list string :=
  let d := to_lowercase dialect in
  if rstring_eqb d (lit "ansi") then (AnsiDialect, [])
  else if rstring_eqb d (lit "bigquery") || rstring_eqb d (lit "bq") then (BigQueryDialect, [])
  else if rstring_eqb d (lit "clickhouse") then (ClickHouseDialect, [])
  else if rstring_eqb d (lit "generic") then (GenericDialect, [])
  else if rstring_eqb d (lit "hive") then (HiveDialect, [])
  else if rstring_eqb d (lit "ms") || rstring_eqb d (lit "mssql") then (MsSqlDialect, [])
  else if rstring_eqb d (lit "mysql") then (MySqlDialect, [])
  else if rstring_eqb d (lit "postgres") then (PostgreSqlDialect, [])
  else if rstring_eqb d (lit "redshift") then (RedshiftSqlDialect, [])
  else if rstring_eqb d (lit "snowflake") then (SnowflakeDialect, [])
  else if rstring_eqb d (lit "sqlite") then (SQLiteDialect, [])
  else (GenericDialect, [dialect_fallback_notice]).

Variable Statement : Type.
Variable PyValue : Type.
Variable Parser_parse_sql : Dialect -> rstring -> result (list Statement) ParserError.
Variable pythonize : list Statement -> result PyValue string.

(** [parse_sql], with the lines it prints. *)
Definition parse_sql (sql dialect : rstring) : result PyValue PyErr * list string :=
  let (chosen_dialect, printed) := string_to_dialect dialect in
  let parse_result := Parser_parse_sql chosen_dialect sql in
  let output :=
    match parse_result with
    | Ok statements =>
        map_err (pythonize statements)
          (fun msg => PyValueError ("Python object serialization failed." ++ nl_tab ++ msg))
    | Err e =>
        Err (PyValueError ("Query parsing failed." ++ nl_tab ++ parser_error_msg e))
    end in
  (output, printed).

End WithLowercase.

End Sqloxide.

(** [str::to_lowercase] on ASCII text. *)
Definition ascii_to_lowercase (s : rstring) : rstring :=
  map (fun c => if (65 <=? c) && (c <=? 90) then c + 32 else c) s.

(** ** src/list_ops.rs: [anyop_eq_numeric]

    A 2-D [i64] array as the list of its rows; [map_axis(Axis(1), ..)]
    maps each row to one value. *)
Definition anyop_eq_numeric (literal : Z) (arr : list (list Z)) : list bool :=
  map (fun row => existsb (fun item => Z.eqb item literal) row) arr.

(** ** src/list_ops.rs: [anyop_eq_string]

    [arr] as pyo3 sees it: its [shape] attribute (a tuple of sizes, if it
    has one) and the rows [arr.get_item((i,))] gives. *)
Record ArrayLike := { shape : option (list N); rows_of : list (list PyObj) }.

Inductive PyException :=
| Raised (e : PyErr)
| PyAttributeError (msg : string)
| PyIndexError (msg : string).

(** [extract::<(usize,)>] *)
Definition extract_usize_1tuple (sh : list N) : result nat PyException :=
  match sh with
  | [n] => if n <? 2 ^ 64 then Ok (N.to_nat n) else Err (Raised (PyValueError "out of range"))
  | _ => Err (Raised (PyValueError "expected tuple of length 1"))
  end.

(** [downcast::<PyString>()?.to_str()?] *)
Definition downcast_to_str (item : PyObj) : result rstring PyException :=
  match item with
  | PyStr s =>
      if forallb is_scalar s then Ok s
      else Err (Raised (PyUnicodeEncodeError "surrogates not allowed"))
  | _ => Err (Raised (PyTypeError ("'" ++ py_type_name item ++ "' object cannot be converted to 'PyString'")))
  end.

(** The inner [for item in row.iter()?] loop with its [break]. *)
Fixpoint scan_row (value : rstring) (items : list PyObj) : result bool PyException :=
  match items with
  | [] => Ok false
  | item :: rest =>
      let? item_str := downcast_to_str item in
      if rstring_eqb item_str value then Ok true else scan_row value rest
  end.

(** [arr.get_item((i,))] *)
Definition get_row (arr : ArrayLike) (i : nat) : result (list PyObj) PyException :=
  match nth_error (rows_of arr) i with
  | Some row => Ok row
  | None => Err (PyIndexError "index out of bounds")
  end.

(** [for i in 0..rows], pushing to [results]. *)
Fixpoint rows_loop (value : rstring) (arr : ArrayLike) (idx : list nat) (results : list bool)
    : result (list bool) PyException :=
  match idx with
  | [] => Ok results
  | i :: rest =>
      let? row := get_row arr i in
      let? found := scan_row value row in
      rows_loop value arr rest (results ++ [found])
  end.

Definition anyop_eq_string (value : rstring) (arr : ArrayLike) : result (list bool) PyException :=
  let? sh := match shape arr with
             | Some sh => Ok sh
             | None => Err (PyAttributeError "object has no attribute 'shape'")
             end in
  let? rows := extract_usize_1tuple sh in
  rows_loop value arr (seq 0 rows) [].

(** ** Statement helpers for the batch replacement (continued) *)


(** A present item can be read in the mode the pattern selects. *)
Definition item_readable (pattern x : PyObj) : Prop :=
  if is_instance_of_bytes pattern then is_instance_of_bytes x = true else item_text x <> None.

(** ** Predicates used to state properties of the code *)

(** No backslash of [s] is directly followed by an ASCII digit. *)
Definition no_backslash_digit (s : rstring) : Prop :=
  forall i, nth_error s i = Some backslash ->
    match nth_error s (S i) with Some d => is_ascii_digit d = false | None => True end.

(** The names sqloxide's [string_to_dialect] matches on. *)
Definition known_dialect_names : list rstring :=
  map lit ["ansi"; "bigquery"; "bq"; "clickhouse"; "generic"; "hive"; "ms"; "mssql";
           "mysql"; "postgres"; "redshift"; "snowflake"; "sqlite"]%string.

(** * Proofs *)

(** ** Sanity checks on small inputs *)

Example convert_ex1 :
  convert_python_to_rust_backrefs (lit "a\1b\\c\") = lit "a$1b\\c\".
Proof. reflexivity. Qed.

Example expand_ex1 :
  expand_str [Some (lit "ab"); Some (lit "a")] [] (lit "<$1> $$ ${1}x $") = lit "<a> $ ax $".
Proof. reflexivity. Qed.

(** ** Facts about the UTF-8 model *)

Ltac nlia := zify; Z.to_euclidean_division_equations; lia.

Lemma byte_of_N_to_N b : byte_of_N (Byte.to_N b) = b.
Proof. unfold byte_of_N. now rewrite Byte.of_to_N. Qed.

Lemma encode_char_2 x0 x1 :
  0xC2 <= x0 <= 0xDF -> 0x80 <= x1 <= 0xBF ->
  encode_char ((x0 mod 32) * 64 + x1 mod 64) = [byte_of_N x0; byte_of_N x1].
Proof.
  intros H0 H1. unfold encode_char.
  replace (((x0 mod 32) * 64 + x1 mod 64) <? 0x80) with false by (symmetry; apply N.ltb_ge; nlia).
  replace (((x0 mod 32) * 64 + x1 mod 64) <? 0x800) with true by (symmetry; apply N.ltb_lt; nlia).
  cbn [map]. repeat f_equal; nlia.
Qed.

Lemma encode_char_3 x0 x1 x2 :
  0xE0 <= x0 <= 0xEF -> 0x80 <= x1 <= 0xBF -> (x0 = 0xE0 -> 0xA0 <= x1) ->
  0x80 <= x2 <= 0xBF ->
  encode_char ((x0 mod 16) * 4096 + (x1 mod 64) * 64 + x2 mod 64)
  = [byte_of_N x0; byte_of_N x1; byte_of_N x2].
Proof.
  intros H0 H1 H1' H2. unfold encode_char.
  set (c := (x0 mod 16) * 4096 + (x1 mod 64) * 64 + x2 mod 64).
  assert (Hc : 0x800 <= c < 0x10000).
  { subst c. destruct (N.eq_dec x0 0xE0) as [->|Hne]; [specialize (H1' eq_refl)|]; nlia. }
  replace (c <? 0x80) with false by (symmetry; apply N.ltb_ge; lia).
  replace (c <? 0x800) with false by (symmetry; apply N.ltb_ge; lia).
  replace (c <? 0x10000) with true by (symmetry; apply N.ltb_lt; lia).
  subst c. cbn [map]. repeat f_equal; nlia.
Qed.

Lemma encode_char_4 x0 x1 x2 x3 :
  0xF0 <= x0 <= 0xF4 -> 0x80 <= x1 <= 0xBF -> (x0 = 0xF0 -> 0x90 <= x1) ->
  0x80 <= x2 <= 0xBF -> 0x80 <= x3 <= 0xBF ->
  encode_char ((x0 mod 8) * 262144 + (x1 mod 64) * 4096 + (x2 mod 64) * 64 + x3 mod 64)
  = [byte_of_N x0; byte_of_N x1; byte_of_N x2; byte_of_N x3].
Proof.
  intros H0 H1 H1' H2 H3. unfold encode_char.
  set (c := (x0 mod 8) * 262144 + (x1 mod 64) * 4096 + (x2 mod 64) * 64 + x3 mod 64).
  assert (Hc : 0x10000 <= c).
  { subst c. destruct (N.eq_dec x0 0xF0) as [->|Hne]; [specialize (H1' eq_refl)|]; nlia. }
  replace (c <? 0x80) with false by (symmetry; apply N.ltb_ge; lia).
  replace (c <? 0x800) with false by (symmetry; apply N.ltb_ge; lia).
  replace (c <? 0x10000) with false by (symmetry; apply N.ltb_ge; lia).
  subst c. cbn [map]. repeat f_equal; nlia.
Qed.

Ltac bool_facts :=
  repeat match goal with
  | H : (_ && _)%bool = true |- _ => apply andb_prop in H; destruct H
  | H : (_ <=? _) = true |- _ => apply N.leb_le in H
  | H : (_ <? _) = true |- _ => apply N.ltb_lt in H
  | H : (_ <? _) = false |- _ => apply N.ltb_ge in H
  | H : (_ =? _) = true |- _ => apply N.eqb_eq in H
  | H : (_ =? _) = false |- _ => apply N.eqb_neq in H
  end.

Lemma cons_ok_inv {E} c r cs :
  @cons_ok E c r = Ok cs -> exists cs', r = Ok cs' /\ cs = c :: cs'.
Proof. destruct r; simpl; intros H; inversion H; eauto. Qed.

(** Decoding valid UTF-8 and encoding the chars again gives the bytes back. *)
Lemma from_utf8_at_as_bytes n : forall bs i cs,
  (List.length bs <= n)%nat -> from_utf8_at i bs = Ok cs -> as_bytes cs = bs.
Proof.
  induction n as [|n IH]; intros bs i cs Hlen Hdec.
  { destruct bs; [|simpl in Hlen; lia]. simpl in Hdec. now inversion Hdec. }
  destruct bs as [|b0 r0]; [simpl in Hdec; now inversion Hdec|].
  simpl in Hlen. pose proof (Byte.to_N_bounded b0) as B0.
  simpl in Hdec.
  destruct (Byte.to_N b0 <? 0x80) eqn:E0.
  { apply cons_ok_inv in Hdec as (cs' & Hr & ->).
    simpl. bool_facts.
    unfold encode_char. replace (Byte.to_N b0 <? 0x80) with true by (symmetry; now apply N.ltb_lt).
    simpl. rewrite byte_of_N_to_N. f_equal. eapply IH; [lia|exact Hr]. }
  destruct ((0xC2 <=? Byte.to_N b0) && (Byte.to_N b0 <=? 0xDF)) eqn:E1.
  { destruct r0 as [|b1 r1]; [discriminate|].
    destruct (is_cont (Byte.to_N b1)) eqn:C1; [|discriminate].
    apply cons_ok_inv in Hdec as (cs' & Hr & ->).
    unfold is_cont in C1. bool_facts. simpl in Hlen.
    simpl. rewrite encode_char_2 by lia. simpl. rewrite !byte_of_N_to_N.
    do 2 f_equal. eapply IH; [lia|exact Hr]. }
  destruct ((0xE0 <=? Byte.to_N b0) && (Byte.to_N b0 <=? 0xEF)) eqn:E2.
  { destruct r0 as [|b1 r1]; [discriminate|].
    destruct (second_ok3 (Byte.to_N b0) (Byte.to_N b1)) eqn:S1; [|discriminate].
    destruct r1 as [|b2 r2]; [discriminate|].
    destruct (is_cont (Byte.to_N b2)) eqn:C2; [|discriminate].
    apply cons_ok_inv in Hdec as (cs' & Hr & ->).
    unfold second_ok3, is_cont in *. simpl in Hlen.
    assert (R1 : 0x80 <= Byte.to_N b1 <= 0xBF /\ (Byte.to_N b0 = 0xE0 -> 0xA0 <= Byte.to_N b1)).
    { destruct (Byte.to_N b0 =? 0xE0) eqn:Q0; [|destruct (Byte.to_N b0 =? 0xED) eqn:Q1];
        bool_facts; split; intros; lia. }
    bool_facts.
    simpl. rewrite encode_char_3 by lia. simpl. rewrite !byte_of_N_to_N.
    do 3 f_equal. eapply IH; [lia|exact Hr]. }
  destruct ((0xF0 <=? Byte.to_N b0) && (Byte.to_N b0 <=? 0xF4)) eqn:E3; [|discriminate].
  destruct r0 as [|b1 r1]; [discriminate|].
  destruct (second_ok4 (Byte.to_N b0) (Byte.to_N b1)) eqn:S1; [|discriminate].
  destruct r1 as [|b2 r2]; [discriminate|].
  destruct (is_cont (Byte.to_N b2)) eqn:C2; [|discriminate].
  destruct r2 as [|b3 r3]; [discriminate|].
  destruct (is_cont (Byte.to_N b3)) eqn:C3; [|discriminate].
  apply cons_ok_inv in Hdec as (cs' & Hr & ->).
  unfold second_ok4, is_cont in *. simpl in Hlen.
  assert (R1 : 0x80 <= Byte.to_N b1 <= 0xBF /\ (Byte.to_N b0 = 0xF0 -> 0x90 <= Byte.to_N b1)).
  { destruct (Byte.to_N b0 =? 0xF0) eqn:Q0; [|destruct (Byte.to_N b0 =? 0xF4) eqn:Q1];
      bool_facts; split; intros; lia. }
  bool_facts.
  simpl. rewrite encode_char_4 by lia. simpl. rewrite !byte_of_N_to_N.
  do 4 f_equal. eapply IH; [lia|exact Hr].
Qed.

Lemma from_utf8_as_bytes bs cs : from_utf8 bs = Ok cs -> as_bytes cs = bs.
Proof. apply (from_utf8_at_as_bytes (List.length bs)); lia. Qed.

(** Spec scenario 5: pattern "a", replacement "b" over
    ["banana", None, "apple"]; every present item comes back as bytes. *)
Example regex_replace_scenario5 :
  regex_replace_rust literal_str_engine literal_bytes_engine
    [Some (pystr "banana"); None; Some (pystr "apple")] (pystr "a") (pystr "b")
  = Ok [Some (pybytes "bbnbnb"); None; Some (pybytes "bpple")].
Proof. vm_compute. reflexivity. Qed.

Example regex_replace_bytes_mode :
  regex_replace_rust literal_str_engine literal_bytes_engine
    [Some (pybytes "banana"); None] (pybytes "an") (pystr "o")
  = Ok [Some (pybytes "booa"); None].
Proof. vm_compute. reflexivity. Qed.

(** ** The literal engine satisfies the [replace_all] contract *)

Lemma lit_replace_go_no_match {A} (eqb : A -> A -> bool) fuel p rep t :
  lit_is_match eqb p t = false -> lit_replace_go eqb fuel p rep t = t.
Proof.
  revert t; induction fuel as [|fuel IH]; intros t H; [reflexivity|].
  destruct t as [|y t'].
  - simpl in *. now destruct (strip_prefix eqb p []).
  - simpl in *. destruct (strip_prefix eqb p (y :: t')); [discriminate|].
    now rewrite IH.
Qed.

Lemma literal_str_engine_no_match : replace_all_no_match literal_str_engine.
Proof. intros re t rep H. now apply lit_replace_go_no_match. Qed.

Lemma literal_bytes_engine_no_match : replace_all_no_match literal_bytes_engine.
Proof. intros re t rep H. now apply lit_replace_go_no_match. Qed.

(** ** The loops of [regex_replace_rust] *)

Lemma Forall2_nth_error_l {A B} (R : A -> B -> Prop) l1 l2 i a :
  Forall2 R l1 l2 -> nth_error l1 i = Some a -> exists b, nth_error l2 i = Some b /\ R a b.
Proof.
  intros HF; revert i; induction HF as [|x y l1' l2' Hxy HF IH]; intros [|i] Hi;
    simpl in *; try discriminate.
  - inversion Hi; subst; eauto.
  - eauto.
Qed.

Lemma Forall2_nth_error_r {A B} (R : A -> B -> Prop) l1 l2 i b :
  Forall2 R l1 l2 -> nth_error l2 i = Some b -> exists a, nth_error l1 i = Some a /\ R a b.
Proof.
  intros HF; revert i; induction HF as [|x y l1' l2' Hxy HF IH]; intros [|i] Hi;
    simpl in *; try discriminate.
  - inversion Hi; subst; eauto.
  - eauto.
Qed.

Section Loops.

Variable SE : Engine char.
Variable BE : Engine byte.

Definition bytes_item_rel (re : rx BE) (rep : rstring) (x y : PyObj) : Prop :=
  exists b, x = PyBytes b /\ y = PyBytes (rx_replace_all BE re b (as_bytes rep)).

Definition string_item_rel (re : rx SE) (rep : rstring) (x y : PyObj) : Prop :=
  exists s, item_text x = Some s /\ y = PyBytes (as_bytes (rx_replace_all SE re s rep)).

Lemma bytes_loop_ok re rep data out res :
  bytes_loop BE re rep data out = Ok res ->
  exists ys, res = out ++ ys /\ Forall2 (slot_rel (bytes_item_rel re rep)) data ys.
Proof.
  revert out; induction data as [|[item|] rest IH]; intros out H; simpl in H.
  - inversion H; subst. exists []. now rewrite app_nil_r.
  - destruct (extract_bytes item) as [b|e] eqn:Ex; simpl in H; [|discriminate].
    apply IH in H as (ys & -> & HF).
    eexists; split; [now rewrite <- app_assoc|].
    constructor; [|exact HF].
    destruct item; try discriminate. simpl in Ex. inversion Ex; subst.
    simpl. exists b. split; reflexivity.
  - apply IH in H as (ys & -> & HF).
    exists (None :: ys). split; [now rewrite <- app_assoc|]. now constructor.
Qed.

Lemma string_loop_ok re rep data out res :
  string_loop SE re rep data out = Ok res ->
  exists ys, res = out ++ ys /\ Forall2 (slot_rel (string_item_rel re rep)) data ys.
Proof.
  revert out; induction data as [|[item|] rest IH]; intros out H; simpl in H.
  - inversion H; subst. exists []. now rewrite app_nil_r.
  - destruct (extract_bytes item) as [b|e] eqn:Ex.
    + destruct (from_utf8 b) as [s|e] eqn:Ed; simpl in H; [|discriminate].
      apply IH in H as (ys & -> & HF).
      eexists; split; [now rewrite <- app_assoc|].
      constructor; [|exact HF].
      destruct item; try discriminate. simpl in Ex. inversion Ex; subst.
      simpl. exists s. unfold item_text. now rewrite Ed.
    + destruct (extract_string item) as [s|e'] eqn:Es; simpl in H; [|discriminate].
      apply IH in H as (ys & -> & HF).
      eexists; split; [now rewrite <- app_assoc|].
      constructor; [|exact HF].
      simpl. exists s. split; [|reflexivity].
      destruct item; try discriminate; unfold item_text; now rewrite Es.
  - apply IH in H as (ys & -> & HF).
    exists (None :: ys). split; [now rewrite <- app_assoc|]. now constructor.
Qed.

End Loops.

Lemma regex_replace_rust_ok_inv SE BE data pattern replacement out :
  regex_replace_rust SE BE data pattern replacement = Ok out ->
  (exists pb ps re rep, pattern = PyBytes pb /\ from_utf8 pb = Ok ps /\ rx_new BE ps = Ok re
     /\ Forall2 (slot_rel (bytes_item_rel BE re rep)) data out)
  \/ (is_instance_of_bytes pattern = false /\
      exists ps re rep, extract_string pattern = Ok ps /\ rx_new SE ps = Ok re
     /\ Forall2 (slot_rel (string_item_rel SE re rep)) data out).
Proof.
  unfold regex_replace_rust. destruct (is_instance_of_bytes pattern) eqn:Hb.
  - destruct pattern as [pb| |]; try discriminate. simpl.
    destruct (match extract_bytes replacement with
              | Ok bytes => _ | Err _ => _ end) as [rs|e]; simpl; [|discriminate].
    destruct (from_utf8 pb) as [ps|e] eqn:Hp; simpl; [|discriminate].
    destruct (rx_new BE ps) as [re|e] eqn:Hr; simpl; [|discriminate].
    intros H. apply bytes_loop_ok in H as (ys & -> & HF).
    left. exists pb, ps, re, (convert_python_to_rust_backrefs rs). auto.
  - destruct (extract_string pattern) as [ps|e] eqn:Hp; simpl; [|discriminate].
    destruct (extract_string replacement) as [rs|e]; simpl; [|discriminate].
    destruct (rx_new SE ps) as [re|e] eqn:Hr; simpl; [|discriminate].
    intros H. apply string_loop_ok in H as (ys & -> & HF).
    right. split; [reflexivity|]. exists ps, re, (convert_python_to_rust_backrefs rs). auto.
Qed.

Lemma Forall2_slot_none R data out i :
  Forall2 (slot_rel R) data out -> (nth_error data i = Some None <-> nth_error out i = Some None).
Proof.
  intros HF; split; intros Hi.
  - destruct (Forall2_nth_error_l _ _ _ _ _ HF Hi) as ([y|] & Hy & Hr); [contradiction|exact Hy].
  - destruct (Forall2_nth_error_r _ _ _ _ _ HF Hi) as ([x|] & Hx & Hr); [contradiction|exact Hx].
Qed.

Lemma Forall2_slot_some R data out i x :
  Forall2 (slot_rel R) data out -> nth_error data i = Some (Some x) ->
  exists y, nth_error out i = Some (Some y) /\ R x y.
Proof.
  intros HF Hi.
  destruct (Forall2_nth_error_l _ _ _ _ _ HF Hi) as ([y|] & Hy & Hr); [eauto|contradiction].
Qed.

Lemma Forall2_slot_out R data out i y :
  Forall2 (slot_rel R) data out -> nth_error out i = Some (Some y) ->
  exists x, nth_error data i = Some (Some x) /\ R x y.
Proof.
  intros HF Hi.
  destruct (Forall2_nth_error_r _ _ _ _ _ HF Hi) as ([x|] & Hx & Hr); [eauto|contradiction].
Qed.

(** ** C4 *)

(** Claim C4 (amended).  Whenever [regex_replace_rust] returns a list, the
    list has the length of the input, an item is absent in the output
    exactly where it is absent in the input, every present item gives a
    present item at the same index, and a present item the pattern does not
    match comes back with its content unchanged, as a byte string ([bytes]
    as they were, a [str] as its UTF-8 encoding).  The whole call fails,
    with no list, when a present item cannot be read in the mode the
    pattern selects. *)
Theorem regex_replace_rust_slots SE BE
    (HS : replace_all_no_match SE) (HB : replace_all_no_match BE)
    data pattern replacement :
  (forall out, regex_replace_rust SE BE data pattern replacement = Ok out ->
    List.length out = List.length data /\
    (forall i, nth_error data i = Some None <-> nth_error out i = Some None) /\
    (forall i x, nth_error data i = Some (Some x) ->
       exists y, nth_error out i = Some (Some y) /\
         (unmatched_item SE BE pattern x -> y = PyBytes (item_content x)))) /\
  (forall i x, nth_error data i = Some (Some x) -> ~ item_readable pattern x ->
     exists e, regex_replace_rust SE BE data pattern replacement = Err e).
Proof.
  split.
  2:{ intros i x Hi Hnr.
      destruct (regex_replace_rust SE BE data pattern replacement) as [out|e] eqn:E; [|eauto].
      exfalso. apply regex_replace_rust_ok_inv in E
        as [(pb & ps & re & rep & -> & Hp & Hr & HF) | (Hb & ps & re & rep & Hp & Hr & HF)].
      - destruct (Forall2_slot_some _ _ _ _ _ HF Hi) as (y & Hy & b & -> & _).
        apply Hnr. reflexivity.
      - destruct (Forall2_slot_some _ _ _ _ _ HF Hi) as (y & Hy & s0 & Hs & _).
        apply Hnr. unfold item_readable. rewrite Hb. congruence. }
  intros out Hok.
  apply regex_replace_rust_ok_inv in Hok
    as [(pb & ps & re & rep & -> & Hp & Hr & HF) | (Hb & ps & re & rep & Hp & Hr & HF)].
  - split; [symmetry; eapply Forall2_length; eauto|].
    split; [intros i; now apply Forall2_slot_none with (R := bytes_item_rel BE re rep)|].
    intros i x Hi. destruct (Forall2_slot_some _ _ _ _ _ HF Hi) as (y & Hy & b & -> & ->).
    exists (PyBytes (rx_replace_all BE re b (as_bytes rep))). split; [exact Hy|].
    intros (pb' & ps' & re' & b' & Hpb & Hp' & Hr' & Hx & Hm).
    inversion Hpb; subst pb'. rewrite Hp in Hp'. inversion Hp'; subst ps'.
    rewrite Hr in Hr'. inversion Hr'; subst re'. inversion Hx; subst b'.
    simpl. now rewrite HB.
  - split; [symmetry; eapply Forall2_length; eauto|].
    split; [intros i; now apply Forall2_slot_none with (R := string_item_rel SE re rep)|].
    intros i x Hi. destruct (Forall2_slot_some _ _ _ _ _ HF Hi) as (y & Hy & s & Hs & ->).
    eexists; split; [exact Hy|].
    unfold unmatched_item. rewrite Hb.
    intros (ps' & re' & s' & Hp' & Hr' & Hs' & Hm).
    rewrite Hp in Hp'. inversion Hp'; subst ps'.
    rewrite Hr in Hr'. inversion Hr'; subst re'.
    rewrite Hs in Hs'. inversion Hs'; subst s'.
    rewrite HS by exact Hm. f_equal.
    destruct x as [b|s0|n]; simpl in Hs |- *.
    + destruct (from_utf8 b) as [s1|] eqn:Ed; [|discriminate].
      inversion Hs; subst s1. now apply from_utf8_as_bytes.
    + destruct (forallb is_scalar s0); inversion Hs; now subst.
    + discriminate.
Qed.

Lemma regex_replace_rust_slots_witness :
  (exists e, regex_replace_rust literal_str_engine literal_bytes_engine
               [Some (pybytes "kiwi"); Some (pystr "apple")] (pybytes "a") (pybytes "b")
             = Err e) /\
  regex_replace_rust literal_str_engine literal_bytes_engine
    [Some (pystr "banana"); None; Some (pybytes "kiwi")] (pystr "a") (pystr "b")
  = Ok [Some (pybytes "bbnbnb"); None; Some (pybytes "kiwi")] /\
  nth_error [Some (pybytes "bbnbnb"); None; Some (pybytes "kiwi")] 2
  = Some (Some (PyBytes (item_content (pybytes "kiwi")))).
Proof.
  split.
  { apply (proj2 (regex_replace_rust_slots _ _ literal_str_engine_no_match
             literal_bytes_engine_no_match [Some (pybytes "kiwi"); Some (pystr "apple")]
             (pybytes "a") (pybytes "b")) 1%nat (pystr "apple") eq_refl).
    unfold item_readable. simpl. discriminate. }
  assert (H : regex_replace_rust literal_str_engine literal_bytes_engine
    [Some (pystr "banana"); None; Some (pybytes "kiwi")] (pystr "a") (pystr "b")
    = Ok [Some (pybytes "bbnbnb"); None; Some (pybytes "kiwi")]) by (vm_compute; reflexivity).
  split; [exact H|].
  destruct (proj1 (regex_replace_rust_slots _ _ literal_str_engine_no_match
              literal_bytes_engine_no_match _ _ _) _ H) as (_ & _ & Hsome).
  destruct (Hsome 2%nat (pybytes "kiwi") eq_refl) as (y & Hy & Hu).
  rewrite Hy. f_equal. f_equal. apply Hu.
  unfold unmatched_item; simpl.
  exists (lit "a"), (lit "a"), (lit "kiwi").
  split; [reflexivity|]. split; [reflexivity|]. split; [vm_compute; reflexivity|].
  vm_compute. reflexivity.
Defined.

(** Claim C4, as stated, fails: a [str] item the pattern does not match
    comes back as [bytes], not unchanged. *)
Lemma regex_replace_rust_str_item_changed :
  lit_is_match N.eqb (lit "z") (lit "apple") = false /\
  regex_replace_rust literal_str_engine literal_bytes_engine
    [Some (pystr "apple")] (pystr "z") (pystr "b") = Ok [Some (pybytes "apple")] /\
  pybytes "apple" <> pystr "apple".
Proof.
  split; [vm_compute; reflexivity|]. split; [vm_compute; reflexivity|]. discriminate.
Qed.

(** ** C10 *)

(** Claim C10.  With a pattern that is not [bytes], every present item of
    the returned list is a [bytes] object. *)
Theorem regex_replace_rust_text_mode_bytes SE BE data pattern replacement out
    (Hmode : is_instance_of_bytes pattern = false)
    (Hok : regex_replace_rust SE BE data pattern replacement = Ok out) :
  forall i y, nth_error out i = Some (Some y) -> exists b, y = PyBytes b.
Proof.
  intros i y Hy.
  apply regex_replace_rust_ok_inv in Hok
    as [(pb & ps & re & rep & -> & _) | (_ & ps & re & rep & _ & _ & HF)];
    [discriminate|].
  destruct (Forall2_slot_out _ _ _ _ _ HF Hy) as (x & _ & s & _ & ->). eauto.
Qed.

Lemma regex_replace_rust_text_mode_bytes_witness :
  regex_replace_rust literal_str_engine literal_bytes_engine
    [Some (pystr "apple")] (pystr "z") (pystr "b") = Ok [Some (pybytes "apple")] /\
  exists b, pybytes "apple" = PyBytes b.
Proof.
  assert (H : regex_replace_rust literal_str_engine literal_bytes_engine
    [Some (pystr "apple")] (pystr "z") (pystr "b") = Ok [Some (pybytes "apple")])
    by (vm_compute; reflexivity).
  split; [exact H|].
  apply (regex_replace_rust_text_mode_bytes literal_str_engine literal_bytes_engine
    _ (pystr "z") (pystr "b") _ eq_refl H 0%nat). reflexivity.
Defined.

(** ** C6 *)




(** ** C5 *)

Lemma convert_loop_app cs acc : convert_loop cs acc = acc ++ convert_loop cs [].
Proof.
  revert acc; induction cs as [|ch rest IH]; intros acc; simpl.
  - now rewrite app_nil_r.
  - destruct (ch =? backslash);
      [destruct rest as [|n r]; [|destruct (is_ascii_digit n)]|];
      rewrite IH, (IH [_]); now rewrite app_assoc.
Qed.

(** The rewrite is char by char: a backslash followed by an ASCII digit
    becomes [$], every other char (a backslash followed by anything else, a
    trailing backslash) is copied. *)
Lemma convert_pointwise s :
  List.length (convert_python_to_rust_backrefs s) = List.length s /\
  forall i c, nth_error s i = Some c ->
    nth_error (convert_python_to_rust_backrefs s) i
    = Some (if (c =? backslash) &&
               match nth_error s (S i) with Some d => is_ascii_digit d | None => false end
            then dollar else c).
Proof.
  unfold convert_python_to_rust_backrefs.
  induction s as [|ch rest [IHl IHn]]; [split; [reflexivity|intros [|i] c H; discriminate]|].
  assert (Hstep : convert_loop (ch :: rest) []
    = (if (ch =? backslash) && match rest with d :: _ => is_ascii_digit d | [] => false end
       then dollar else ch) :: convert_loop rest []).
  { cbn [convert_loop].
    destruct (ch =? backslash) eqn:Hc;
      [destruct rest as [|n r]; [|destruct (is_ascii_digit n) eqn:Hd]|];
      rewrite convert_loop_app; reflexivity. }
  rewrite Hstep. split; [simpl; now rewrite IHl|].
  intros [|i] c H; simpl in H |- *.
  - inversion H; subst. destruct rest; reflexivity.
  - now apply IHn.
Qed.

(** Claim C5 (code bug).  A Python template [\1x] means group 1 followed by
    [x]; the translation gives [$1x], which the regex crate reads as the
    group named [1x], so the first capture group is not substituted and the
    [x] is lost: with group 1 = "a" the expansion is empty, not "ax". *)
Theorem convert_backref_then_letter_loses_group :
  convert_python_to_rust_backrefs (lit "\1x") = lit "$1x" /\
  group_text [Some (lit "a"); Some (lit "a")] 1 = lit "a" /\
  expand_str [Some (lit "a"); Some (lit "a")] [] (convert_python_to_rust_backrefs (lit "\1x")) = [] /\
  expand_str [Some (lit "a"); Some (lit "a")] [] (convert_python_to_rust_backrefs (lit "\1 x"))
  = lit "a x".
Proof. repeat split; reflexivity. Qed.

(** ** The dialect hook *)

Example parse_infix_div_ex :
  parse_infix parse_expr_atom (Value "10") 0
    [Token.Whitespace; Token.Word "DIV" DIV; Token.Whitespace; Token.Number "3"]
  = Done (Some (Ok (BinaryOp (Value "10") BinaryOperator.MyIntegerDivide (Value "3")))) [].
Proof. reflexivity. Qed.

Example parse_infix_none_ex :
  parse_infix parse_expr_atom (Value "10") 0 [Token.Plus; Token.Number "3"]
  = Done None [Token.Plus; Token.Number "3"].
Proof. reflexivity. Qed.

Lemma parse_keyword_hit ts w kw :
  peek_token ts = Token.Word w kw -> parse_keyword kw ts = Done true (advance_token ts).
Proof.
  intros H. unfold parse_keyword. rewrite H.
  destruct (keyword_eq_dec kw kw); [reflexivity|congruence].
Qed.

Lemma parse_keyword_miss ts kw :
  (forall w, peek_token ts <> Token.Word w kw) -> parse_keyword kw ts = Done false ts.
Proof.
  intros H. unfold parse_keyword.
  destruct (peek_token ts) as [|w k| | | | | |] eqn:E; try reflexivity.
  destruct (keyword_eq_dec k kw) as [->|]; [|reflexivity].
  exfalso. exact (H w eq_refl).
Qed.

Lemma consume_token_hit ts t :
  peek_token ts = t -> consume_token t ts = Done true (advance_token ts).
Proof. intros H. unfold consume_token. destruct (token_eq_dec (peek_token ts) t); congruence. Qed.

Lemma consume_token_miss ts t :
  peek_token ts <> t -> consume_token t ts = Done false ts.
Proof. intros H. unfold consume_token. destruct (token_eq_dec (peek_token ts) t); congruence. Qed.

(** Claim C2 (code bug).  When the hook has recognised [DIV], [@>] or
    [@>>] and the input ends there, [Parser::parse_expr] reports its
    "Expected: an expression" error, and the hook does not return that
    error: [unwrap] panics. *)
Theorem parse_infix_operand_error_panics parse_expr expr prec ts
    (Heof : forall ts0, peek_token ts0 = Token.EOF ->
            exists e, parse_expr ts0 = Done (Err e) ts0) :
  (forall w, peek_token ts = Token.Word w DIV -> peek_token (advance_token ts) = Token.EOF ->
     exists e, parse_infix parse_expr expr prec ts = Panic (unwrap_msg e)) /\
  (peek_token ts = Token.AtArrow -> peek_token (advance_token ts) = Token.EOF ->
     exists e, parse_infix parse_expr expr prec ts = Panic (unwrap_msg e)) /\
  (peek_token ts = Token.AtArrow -> peek_token (advance_token ts) = Token.Gt ->
   peek_token (advance_token (advance_token ts)) = Token.EOF ->
     exists e, parse_infix parse_expr expr prec ts = Panic (unwrap_msg e)).
Proof.
  unfold parse_infix, pm_bind, unwrap, pm_ret.
  repeat split.
  - intros w Hw Heof1. rewrite (parse_keyword_hit _ _ _ Hw). cbv beta iota.
    destruct (Heof _ Heof1) as (e & He). rewrite He. eauto.
  - intros Ha Heof1.
    rewrite (parse_keyword_miss ts DIV) by (intros w; rewrite Ha; discriminate).
    cbv beta iota. rewrite (consume_token_hit _ _ Ha). cbv beta iota.
    rewrite (consume_token_miss (advance_token ts) Token.Gt) by (rewrite Heof1; discriminate).
    cbv beta iota. destruct (Heof _ Heof1) as (e & He). rewrite He. eauto.
  - intros Ha Hg Heof2.
    rewrite (parse_keyword_miss ts DIV) by (intros w; rewrite Ha; discriminate).
    cbv beta iota. rewrite (consume_token_hit _ _ Ha). cbv beta iota.
    rewrite (consume_token_hit _ _ Hg). cbv beta iota.
    destruct (Heof _ Heof2) as (e & He). rewrite He. eauto.
Qed.

(** "SELECT 10 DIV": the hook runs after [10] on the tokens of " DIV". *)
Lemma parse_infix_operand_error_panics_witness :
  parse_infix parse_expr_atom (Value "10") 0 [Token.Whitespace; Token.Word "DIV" DIV]
  = Panic (unwrap_msg (ParserErrorMsg "Expected: an expression, found: EOF")) /\
  exists e, parse_infix parse_expr_atom (Value "10") 0 [Token.Whitespace; Token.Word "DIV" DIV]
            = Panic (unwrap_msg e).
Proof.
  split; [reflexivity|].
  refine (proj1 (parse_infix_operand_error_panics parse_expr_atom (Value "10") 0
                   [Token.Whitespace; Token.Word "DIV" DIV] _) "DIV"%string eq_refl eq_refl).
  intros ts0 H. unfold parse_expr_atom. rewrite H. eauto.
Defined.

(** Claim C3.  At [@>] followed by [>] the hook consumes both tokens and
    builds one [ArrayContainsAll] node over the operand that follows; at
    [@>] followed by anything else it builds an [AtArrow] node.  (The
    operand's own parse error is the panic of C2.) *)
Theorem parse_infix_array_contains_all parse_expr expr prec ts
    (Hat : peek_token ts = Token.AtArrow) :
  (peek_token (advance_token ts) = Token.Gt ->
   parse_infix parse_expr expr prec ts
   = match parse_expr (advance_token (advance_token ts)) with
     | Done (Ok rhs) ts' =>
         Done (Some (Ok (BinaryOp expr (BinaryOperator.Custom "ArrayContainsAll") rhs))) ts'
     | Done (Err e) _ => Panic (unwrap_msg e)
     | Panic msg => Panic msg
     end) /\
  (peek_token (advance_token ts) <> Token.Gt ->
   parse_infix parse_expr expr prec ts
   = match parse_expr (advance_token ts) with
     | Done (Ok rhs) ts' => Done (Some (Ok (BinaryOp expr BinaryOperator.AtArrow rhs))) ts'
     | Done (Err e) _ => Panic (unwrap_msg e)
     | Panic msg => Panic msg
     end).
Proof.
  unfold parse_infix, pm_bind, unwrap, pm_ret.
  rewrite (parse_keyword_miss ts DIV) by (intros w; rewrite Hat; discriminate).
  cbv beta iota. rewrite (consume_token_hit _ _ Hat). cbv beta iota.
  split; intros Hg.
  - rewrite (consume_token_hit _ _ Hg). cbv beta iota.
    destruct (parse_expr (advance_token (advance_token ts))) as [[r|e] ts'|m]; reflexivity.
  - rewrite (consume_token_miss _ _ Hg). cbv beta iota.
    destruct (parse_expr (advance_token ts)) as [[r|e] ts'|m]; reflexivity.
Qed.

(** "a @>> b" and "a @> b" after [a]. *)
Lemma parse_infix_array_contains_all_witness :
  parse_infix parse_expr_atom (Identifier "a") 0
    [Token.Whitespace; Token.AtArrow; Token.Gt; Token.Whitespace; Token.Word "b" NoKeyword]
  = Done (Some (Ok (BinaryOp (Identifier "a") (BinaryOperator.Custom "ArrayContainsAll")
                             (Identifier "b")))) [] /\
  parse_infix parse_expr_atom (Identifier "a") 0
    [Token.AtArrow; Token.Whitespace; Token.Word "b" NoKeyword]
  = Done (Some (Ok (BinaryOp (Identifier "a") BinaryOperator.AtArrow (Identifier "b")))) [].
Proof.
  split.
  - exact (proj1 (parse_infix_array_contains_all parse_expr_atom (Identifier "a") 0
      [Token.Whitespace; Token.AtArrow; Token.Gt; Token.Whitespace; Token.Word "b" NoKeyword]
      eq_refl) eq_refl).
  - exact (proj2 (parse_infix_array_contains_all parse_expr_atom (Identifier "a") 0
      [Token.AtArrow; Token.Whitespace; Token.Word "b" NoKeyword] eq_refl) ltac:(discriminate)).
Defined.

(** ** Entry points *)

(** Claim C7.  [parse_sql] gives the same result for any two dialect
    arguments: it always parses with [OpteryxDialect]. *)
Theorem parse_sql_ignores_dialect (Statement PyValue : Type)
    (Parser_parse_sql : Dialect -> rstring -> result (list Statement) ParserError)
    (pythonize : list Statement -> result PyValue string) (sql d1 d2 : rstring) :
  parse_sql Statement PyValue Parser_parse_sql pythonize sql d1
  = parse_sql Statement PyValue Parser_parse_sql pythonize sql d2 /\
  parse_sql Statement PyValue Parser_parse_sql pythonize sql d1
  = parse_sql Statement PyValue (fun _ => Parser_parse_sql OpteryxDialect) pythonize sql d1.
Proof. split; reflexivity. Qed.

(** [restore_ast], for any decoder: it fails with a [ValueError] carrying
    the decoder's message whenever pythonize's decoder rejects the tree, and
    otherwise returns one rendered SQL string per decoded statement, in
    order.  Which trees the decoder rejects is up to pythonize and the serde
    derives of sqlparser's AST. *)
Theorem restore_ast_spec (Statement PyValue : Type)
    (statement_to_string : Statement -> string)
    (depythonize : PyValue -> result (list Statement) string) (ast : PyValue) :
  match depythonize ast with
  | Err e =>
      restore_ast Statement PyValue statement_to_string depythonize ast
      = Err (PyValueError ("Query serialization failed." ++ nl_tab ++ e))
  | Ok statements =>
      exists out, restore_ast Statement PyValue statement_to_string depythonize ast = Ok out
      /\ List.length out = List.length statements
      /\ forall i s, nth_error statements i = Some s ->
                     nth_error out i = Some (statement_to_string s)
  end.
Proof.
  unfold restore_ast. destruct (depythonize ast) as [statements|e]; [|reflexivity].
  exists (map statement_to_string statements). split; [reflexivity|].
  split; [apply length_map|].
  intros i s H. now rewrite nth_error_map, H.
Qed.

(** Claim C9.  [extract_temporal_for_clauses] returns the SQL unchanged
    and no filter. *)
Theorem extract_temporal_for_clauses_identity (sql : rstring) :
  clean_sql (extract_temporal_for_clauses sql) = sql /\
  filters (extract_temporal_for_clauses sql) = [].
Proof. split; reflexivity. Qed.


(** ** Further properties of the code *)

(** *** [regex_replace_rust]: when it succeeds *)

Section LoopsOk.
Variable SE : Engine char.
Variable BE : Engine byte.



End LoopsOk.




(** *** [convert_python_to_rust_backrefs] *)

Lemma convert_id_of_no_pair s :
  no_backslash_digit s -> convert_python_to_rust_backrefs s = s.
Proof.
  destruct (convert_pointwise s) as [Hl Hn]. intros H. apply nth_error_ext. intros i.
  destruct (nth_error s i) as [c|] eqn:Hc.
  - rewrite (Hn i c Hc).
    destruct (c =? backslash) eqn:Eb; [|reflexivity].
    apply N.eqb_eq in Eb; subst c. specialize (H i Hc).
    destruct (nth_error s (S i)) as [d|]; [rewrite H|]; reflexivity.
  - apply nth_error_None. rewrite Hl. apply nth_error_None. exact Hc.
Qed.

Lemma convert_out_no_pair s :
  no_backslash_digit (convert_python_to_rust_backrefs s).
Proof.
  destruct (convert_pointwise s) as [Hl Hn]. intros i Hi.
  destruct (nth_error s i) as [c|] eqn:Hc;
    [|apply nth_error_None in Hc; rewrite <- Hl in Hc; apply nth_error_None in Hc; congruence].
  rewrite (Hn i c Hc) in Hi.
  destruct (nth_error s (S i)) as [d|] eqn:Hd.
  - rewrite (Hn (S i) d Hd).
    destruct ((c =? backslash) && is_ascii_digit d) eqn:E1; [inversion Hi; discriminate|].
    inversion Hi; subst c. rewrite N.eqb_refl, andb_true_l in E1.
    destruct ((d =? backslash) && _); [reflexivity|exact E1].
  - destruct (nth_error (convert_python_to_rust_backrefs s) (S i)) eqn:E; [|exact I].
    exfalso. assert (Hlt : (S i < List.length s)%nat)
      by (rewrite <- Hl; apply nth_error_Some; congruence).
    apply nth_error_Some in Hlt. contradiction.
Qed.

(** [convert_python_to_rust_backrefs] leaves a replacement unchanged exactly
    when no backslash in it is directly followed by an ASCII digit. *)
Theorem convert_fixpoint_iff s :
  convert_python_to_rust_backrefs s = s <-> no_backslash_digit s.
Proof.
  split; [|apply convert_id_of_no_pair].
  destruct (convert_pointwise s) as [Hl Hn]. unfold no_backslash_digit.
  intros E i Hi. specialize (Hn i _ Hi). rewrite E, Hi in Hn.
  destruct (nth_error s (S i)) as [d|]; [|exact I].
  destruct (is_ascii_digit d); [|reflexivity].
  simpl in Hn. inversion Hn.
Qed.

(** The converter's output never has a backslash directly followed by an
    ASCII digit, so converting twice is converting once. *)
Theorem convert_idempotent s :
  no_backslash_digit (convert_python_to_rust_backrefs s) /\
  convert_python_to_rust_backrefs (convert_python_to_rust_backrefs s)
  = convert_python_to_rust_backrefs s.
Proof. split; [apply convert_out_no_pair|apply convert_id_of_no_pair, convert_out_no_pair]. Qed.

(** *** [OpteryxDialect::parse_infix] *)

(** The hook declines, consuming nothing, unless the next token is [DIV] or [@>]. *)
Theorem parse_infix_declines parse_expr expr prec ts
    (Hdiv : forall w, peek_token ts <> Token.Word w DIV)
    (Hat : peek_token ts <> Token.AtArrow) :
  parse_infix parse_expr expr prec ts = Done None ts.
Proof.
  unfold parse_infix, pm_bind, pm_ret.
  rewrite (parse_keyword_miss ts DIV Hdiv). cbv beta iota.
  rewrite (consume_token_miss _ _ Hat). reflexivity.
Qed.

Lemma parse_infix_declines_witness :
  (forall w, peek_token [Token.Whitespace; Token.Plus; Token.Number "1"] <> Token.Word w DIV) /\
  peek_token [Token.Whitespace; Token.Plus; Token.Number "1"] <> Token.AtArrow /\
  parse_infix parse_expr_atom (Identifier "a") 0 [Token.Whitespace; Token.Plus; Token.Number "1"]
  = Done None [Token.Whitespace; Token.Plus; Token.Number "1"].
Proof.
  assert (H1 : forall w, peek_token [Token.Whitespace; Token.Plus; Token.Number "1"] <> Token.Word w DIV)
    by (intros w; simpl; discriminate).
  assert (H2 : peek_token [Token.Whitespace; Token.Plus; Token.Number "1"] <> Token.AtArrow)
    by (simpl; discriminate).
  split; [exact H1|]. split; [exact H2|].
  exact (parse_infix_declines parse_expr_atom (Identifier "a") 0 _ H1 H2).
Defined.

(** After [DIV] the hook parses one operand and builds an integer division;
    an operand error panics. *)
Theorem parse_infix_div parse_expr expr prec ts w
    (Hw : peek_token ts = Token.Word w DIV) :
  parse_infix parse_expr expr prec ts
  = match parse_expr (advance_token ts) with
    | Done (Ok rhs) ts' => Done (Some (Ok (BinaryOp expr BinaryOperator.MyIntegerDivide rhs))) ts'
    | Done (Err e) _ => Panic (unwrap_msg e)
    | Panic msg => Panic msg
    end.
Proof.
  unfold parse_infix, pm_bind, unwrap, pm_ret.
  rewrite (parse_keyword_hit _ _ _ Hw). cbv beta iota.
  destruct (parse_expr (advance_token ts)) as [[r|e] ts'|m]; reflexivity.
Qed.

Lemma parse_infix_div_witness :
  peek_token [Token.Whitespace; Token.Word "div" DIV; Token.Number "2"] = Token.Word "div" DIV /\
  parse_infix parse_expr_atom (Identifier "a") 0
    [Token.Whitespace; Token.Word "div" DIV; Token.Number "2"]
  = Done (Some (Ok (BinaryOp (Identifier "a") BinaryOperator.MyIntegerDivide (Value "2")))) [].
Proof.
  split; [reflexivity|].
  exact (parse_infix_div parse_expr_atom (Identifier "a") 0
    [Token.Whitespace; Token.Word "div" DIV; Token.Number "2"] "div" eq_refl).
Defined.

(** The hook never hands an [Err] back to the parser. *)
Theorem parse_infix_never_returns_err parse_expr expr prec ts e ts' :
  parse_infix parse_expr expr prec ts <> Done (Some (Err e)) ts'.
Proof.
  unfold parse_infix, pm_bind, unwrap, pm_ret, parse_keyword, consume_token.
  destruct (peek_token ts) eqn:Hp;
    repeat match goal with
    | |- context [keyword_eq_dec ?a ?b] => destruct (keyword_eq_dec a b)
    | |- context [token_eq_dec ?a ?b] => destruct (token_eq_dec a b)
    | |- context [parse_expr ?x] => destruct (parse_expr x) as [[?|?] ?|?]
    end; cbv beta iota; discriminate.
Qed.

(** *** src/list_ops.rs *)

(** [anyop_eq_numeric] gives one flag per row: whether the literal occurs in it. *)
Theorem anyop_eq_numeric_rows literal arr i :
  nth_error (anyop_eq_numeric literal arr) i
  = option_map (fun row => if in_dec Z.eq_dec literal row then true else false) (nth_error arr i).
Proof.
  unfold anyop_eq_numeric. rewrite nth_error_map.
  destruct (nth_error arr i) as [row|]; [|reflexivity]. simpl. f_equal.
  destruct (in_dec Z.eq_dec literal row) as [Hin|Hnin].
  - apply existsb_exists. exists literal. split; [exact Hin|apply Z.eqb_refl].
  - apply Bool.not_true_iff_false. intros Hex. apply existsb_exists in Hex as (x & Hx & E).
    apply Z.eqb_eq in E. subst x. contradiction.
Qed.

Lemma rstring_eqb_eq a b : rstring_eqb a b = true <-> a = b.
Proof. unfold rstring_eqb. destruct (list_eq_dec N.eq_dec a b); split; congruence. Qed.

Lemma scan_row_true value row :
  scan_row value row = Ok true -> In (PyStr value) row.
Proof.
  induction row as [|it rest IH]; simpl; [discriminate|].
  destruct (downcast_to_str it) as [s|e] eqn:Ed; simpl; [|discriminate].
  destruct (rstring_eqb s value) eqn:Eq.
  - intros _. left. apply rstring_eqb_eq in Eq. subst s.
    destruct it as [b|s'|n]; simpl in Ed; try discriminate.
    destruct (forallb is_scalar s'); congruence.
  - intros H. right. exact (IH H).
Qed.

Lemma scan_row_false value row :
  scan_row value row = Ok false -> ~ In (PyStr value) row.
Proof.
  induction row as [|it rest IH]; simpl; [intros _ []|].
  destruct (downcast_to_str it) as [s|e] eqn:Ed; simpl; [|discriminate].
  destruct (rstring_eqb s value) eqn:Eq; [discriminate|].
  intros H [Hit|Hin]; [|exact (IH H Hin)].
  subst it. simpl in Ed. destruct (forallb is_scalar value); [|discriminate].
  inversion Ed; subst s. rewrite (proj2 (rstring_eqb_eq value value) eq_refl) in Eq. discriminate.
Qed.

Lemma scan_row_in value row b :
  scan_row value row = Ok b -> (b = true <-> In (PyStr value) row).
Proof.
  destruct b; intros H.
  - split; [intros _; exact (scan_row_true _ _ H)|reflexivity].
  - split; [discriminate|intros Hin; exfalso; exact (scan_row_false _ _ H Hin)].
Qed.

Lemma rows_loop_ok value arr idx acc out :
  rows_loop value arr idx acc = Ok out ->
  exists bs, out = acc ++ bs /\
    Forall2 (fun i b => exists row, get_row arr i = Ok row /\ scan_row value row = Ok b) idx bs.
Proof.
  revert acc. induction idx as [|i rest IH]; intros acc; simpl.
  - intros H. inversion H; subst. exists []. rewrite app_nil_r. split; constructor.
  - destruct (get_row arr i) as [row|e] eqn:Eg; simpl; [|discriminate].
    destruct (scan_row value row) as [b|e] eqn:Es; simpl; [|discriminate].
    intros H. destruct (IH _ H) as (bs & -> & HF).
    exists (b :: bs). split; [rewrite <- app_assoc; reflexivity|].
    constructor; [eauto|exact HF].
Qed.

(** When [anyop_eq_string] succeeds, the shape is one size [n], there are [n]
    flags, and flag [i] says whether row [i] holds the string [value]. *)
Theorem anyop_eq_string_ok value arr out :
  anyop_eq_string value arr = Ok out ->
  exists n, shape arr = Some [n] /\ List.length out = N.to_nat n /\
    forall i b, nth_error out i = Some b ->
      exists row, nth_error (rows_of arr) i = Some row /\ (b = true <-> In (PyStr value) row).
Proof.
  unfold anyop_eq_string. intros H.
  destruct (shape arr) as [sh|]; cbn [res_bind] in H; [|discriminate].
  unfold extract_usize_1tuple in H.
  destruct sh as [|n [|m sh]]; cbn [res_bind] in H; try discriminate.
  destruct (n <? 2 ^ 64); cbn [res_bind] in H; [|discriminate].
  apply rows_loop_ok in H as (bs & -> & HF). cbn [app].
  exists n. split; [reflexivity|]. split.
  - rewrite <- (Forall2_length HF). apply length_seq.
  - intros i b Hb.
    destruct (Forall2_nth_error_r _ _ _ _ _ HF Hb) as (j & Hj & row & Hg & Hs).
    rewrite nth_error_seq in Hj. destruct (Nat.ltb i (N.to_nat n)); [|discriminate].
    inversion Hj; subst j. simpl in Hg. unfold get_row in Hg.
    destruct (nth_error (rows_of arr) i) as [r|]; [|discriminate]. inversion Hg; subst r.
    exists row. split; [reflexivity|exact (scan_row_in _ _ _ Hs)].
Qed.

Lemma anyop_eq_string_ok_witness :
  anyop_eq_string (lit "y")
    {| shape := Some [2]; rows_of := [[pystr "x"; pystr "y"; PyOther "int"]; [pystr "z"]] |}
  = Ok [true; false] /\
  exists n, shape {| shape := Some [2]; rows_of := [[pystr "x"; pystr "y"; PyOther "int"]; [pystr "z"]] |}
              = Some [n] /\ List.length [true; false] = N.to_nat n /\
    forall i b, nth_error [true; false] i = Some b ->
      exists row, nth_error [[pystr "x"; pystr "y"; PyOther "int"]; [pystr "z"]] i = Some row /\
                  (b = true <-> In (PyStr (lit "y")) row).
Proof.
  assert (E : anyop_eq_string (lit "y")
    {| shape := Some [2]; rows_of := [[pystr "x"; pystr "y"; PyOther "int"]; [pystr "z"]] |}
    = Ok [true; false]) by reflexivity.
  split; [exact E|]. exact (anyop_eq_string_ok _ _ _ E).
Defined.

(** Without a [shape], or with a shape of other than one size (a 2-D
    array's included), [anyop_eq_string] fails. *)
Theorem anyop_eq_string_needs_1d_shape value rows :
  anyop_eq_string value {| shape := None; rows_of := rows |}
  = Err (PyAttributeError "object has no attribute 'shape'") /\
  forall sh, List.length sh <> 1%nat ->
    anyop_eq_string value {| shape := Some sh; rows_of := rows |}
    = Err (Raised (PyValueError "expected tuple of length 1")).
Proof.
  split; [reflexivity|].
  intros [|n [|m sh]] Hl; [reflexivity| |reflexivity]. simpl in Hl. lia.
Qed.

(** The row scan stops at the first match: what follows it is never looked
    at, while a non-string item ([bytes] or any other type) before any match
    is a [TypeError]. *)
Theorem scan_row_stops_at_match value pre post
    (Hv : forallb is_scalar value = true)
    (Hpre : Forall (fun it => exists s, it = PyStr s /\ forallb is_scalar s = true /\ s <> value) pre) :
  scan_row value (pre ++ PyStr value :: post) = Ok true /\
  forall t, (forall s, t <> PyStr s) ->
    scan_row value (pre ++ t :: post)
    = Err (Raised (PyTypeError ("'" ++ py_type_name t ++ "' object cannot be converted to 'PyString'"))).
Proof.
  induction Hpre as [|it pre' (s & -> & Hs & Hne) _ IH].
  - simpl. rewrite Hv. simpl. rewrite (proj2 (rstring_eqb_eq value value) eq_refl).
    split; [reflexivity|].
    intros [b|s|n] Ht; [reflexivity| |reflexivity]. exfalso. exact (Ht s eq_refl).
  - simpl. rewrite Hs. simpl.
    destruct (rstring_eqb s value) eqn:E; [apply rstring_eqb_eq in E; contradiction|].
    exact IH.
Qed.

Lemma scan_row_stops_at_match_witness :
  scan_row (lit "b") ([pystr "a"] ++ PyStr (lit "b") :: [PyOther "int"]) = Ok true /\
  scan_row (lit "b") ([pystr "a"] ++ pybytes "b" :: [PyStr (lit "b")])
  = Err (Raised (PyTypeError "'bytes' object cannot be converted to 'PyString'")).
Proof.
  assert (Hpre : Forall (fun it => exists s, it = PyStr s /\ forallb is_scalar s = true /\
                                              s <> lit "b") [pystr "a"]).
  { constructor; [|constructor]. exists (lit "a"). split; [reflexivity|].
    split; [reflexivity|discriminate]. }
  split.
  - exact (proj1 (scan_row_stops_at_match (lit "b") [pystr "a"] [PyOther "int"] eq_refl Hpre)).
  - exact (proj2 (scan_row_stops_at_match (lit "b") [pystr "a"] [PyStr (lit "b")] eq_refl Hpre)
             (pybytes "b") (fun s E => ltac:(discriminate E))).
Defined.

(** *** src/sqloxide.rs *)

Lemma rstring_eqb_neq a b : a <> b -> rstring_eqb a b = false.
Proof. unfold rstring_eqb. destruct (list_eq_dec N.eq_dec a b); congruence. Qed.

(** sqloxide's [string_to_dialect] never selects the Opteryx dialect. *)
Theorem string_to_dialect_never_opteryx to_lowercase dialect :
  fst (Sqloxide.string_to_dialect to_lowercase dialect) <> OpteryxDialect.
Proof.
  unfold Sqloxide.string_to_dialect.
  repeat match goal with |- context [if ?c then _ else _] => destruct c end; discriminate.
Qed.

Lemma string_to_dialect_unknown to_lowercase dialect :
  ~ In (to_lowercase dialect) known_dialect_names ->
  Sqloxide.string_to_dialect to_lowercase dialect = (GenericDialect, [dialect_fallback_notice]).
Proof.
  intros H. unfold known_dialect_names in H. simpl in H.
  unfold Sqloxide.string_to_dialect.
  repeat rewrite rstring_eqb_neq by (intros E; apply H; rewrite E; tauto).
  reflexivity.
Qed.

(** An unknown dialect name parses as [generic] does, and prints the one notice. *)
Theorem sqloxide_parse_sql_unknown_dialect to_lowercase Statement PyValue Parser_parse_sql
    pythonize sql dialect
    (Hgen : to_lowercase (lit "generic") = lit "generic")
    (Hunk : ~ In (to_lowercase dialect) known_dialect_names) :
  Sqloxide.parse_sql to_lowercase Statement PyValue Parser_parse_sql pythonize sql dialect
  = (fst (Sqloxide.parse_sql to_lowercase Statement PyValue Parser_parse_sql pythonize sql
            (lit "generic")),
     [dialect_fallback_notice]) /\
  snd (Sqloxide.parse_sql to_lowercase Statement PyValue Parser_parse_sql pythonize sql
         (lit "generic")) = [].
Proof.
  unfold Sqloxide.parse_sql.
  rewrite (string_to_dialect_unknown _ _ Hunk).
  assert (Hg : Sqloxide.string_to_dialect to_lowercase (lit "generic") = (GenericDialect, [])).
  { unfold Sqloxide.string_to_dialect. rewrite Hgen. reflexivity. }
  rewrite Hg. split; reflexivity.
Qed.

Lemma sqloxide_parse_sql_unknown_dialect_witness :
  ascii_to_lowercase (lit "generic") = lit "generic" /\
  ~ In (ascii_to_lowercase (lit "Oracle")) known_dialect_names /\
  Sqloxide.parse_sql ascii_to_lowercase unit unit (fun _ _ => Ok []) (fun _ => Ok tt)
    (lit "SELECT 1") (lit "Oracle")
  = (Ok tt, [dialect_fallback_notice]).
Proof.
  assert (H1 : ascii_to_lowercase (lit "generic") = lit "generic") by reflexivity.
  assert (H2 : ~ In (ascii_to_lowercase (lit "Oracle")) known_dialect_names)
    by (vm_compute; intuition discriminate).
  split; [exact H1|]. split; [exact H2|].
  exact (proj1 (sqloxide_parse_sql_unknown_dialect ascii_to_lowercase unit unit
    (fun _ _ => Ok []) (fun _ => Ok tt) (lit "SELECT 1") (lit "Oracle") H1 H2)).
Defined.

(** *** [OpteryxDialect::is_identifier_start] and [is_identifier_part] *)
(** A digit or [-] continues an identifier but never starts one. *)
Theorem identifier_digit_hyphen is_alphabetic
    (Hascii : forall ch, ch < 128 -> is_alphabetic ch = is_ascii_alphabetic ch) ch :
  is_ascii_digit ch = true \/ ch = 45 ->
  is_identifier_start is_alphabetic ch = false /\ is_identifier_part is_alphabetic ch = true.
Proof.
  intros Hc. unfold is_identifier_part, is_identifier_start, is_ascii_digit in *.
  assert (Hlt : ch < 128).
  { destruct Hc as [Hc| ->]; [|lia].
    apply andb_true_iff in Hc as [_ H]. apply N.leb_le in H. lia. }
  rewrite (Hascii ch Hlt). unfold is_ascii_alphabetic.
  destruct Hc as [Hc| ->]; [|split; reflexivity].
  apply andb_true_iff in Hc as [H1 H2]. apply N.leb_le in H1, H2.
  assert (Hd : ch = 48 \/ ch = 49 \/ ch = 50 \/ ch = 51 \/ ch = 52 \/ ch = 53 \/ ch = 54 \/
                ch = 55 \/ ch = 56 \/ ch = 57) by lia.
  repeat destruct Hd as [-> | Hd]; try (split; reflexivity). subst ch. split; reflexivity.
Qed.

Lemma identifier_digit_hyphen_witness :
  is_identifier_start is_ascii_alphabetic 55 = false /\ is_identifier_part is_ascii_alphabetic 55 = true.
Proof.
  apply (identifier_digit_hyphen is_ascii_alphabetic (fun ch _ => eq_refl) 55).
  left. reflexivity.
Defined.

(** U+0080..U+FFFF start and continue identifiers; above U+FFFF only
    alphabetic characters do. *)
Theorem identifier_non_ascii is_alphabetic ch :
  (128 <= ch <= 0xFFFF -> is_identifier_start is_alphabetic ch = true /\ 
                         is_identifier_part is_alphabetic ch = true) /\ 
  (0xFFFF < ch -> is_identifier_start is_alphabetic ch = is_alphabetic ch /\ 
                 is_identifier_part is_alphabetic ch = is_alphabetic ch).
Proof.
  unfold is_identifier_part, is_identifier_start, is_ascii_digit. split.
  - intros [H1 H2]. rewrite (proj2 (N.leb_le 0x80 ch) H1), (proj2 (N.leb_le ch 0xFFFF) H2).
    rewrite !orb_true_r. split; reflexivity.
  - intros H. rewrite (proj2 (N.leb_gt ch 0xFFFF) H).
    rewrite (proj2 (N.eqb_neq ch 95)) by lia. rewrite (proj2 (N.eqb_neq ch 36)) by lia.
    rewrite (proj2 (N.eqb_neq ch 64)) by lia. rewrite (proj2 (N.eqb_neq ch 45)) by lia.
    rewrite (proj2 (N.leb_gt ch 57)) by lia.
    rewrite !andb_false_r, !orb_false_r. split; reflexivity.
Qed.

(** [string_to_dialect] prints nothing exactly when the lowercased name is
    one it knows; otherwise it prints the fallback notice, once, and picks
    the generic dialect. *)
Theorem string_to_dialect_prints_iff_unknown to_lowercase dialect :
  (snd (Sqloxide.string_to_dialect to_lowercase dialect) = [] <->
   In (to_lowercase dialect) known_dialect_names) /\
  (~ In (to_lowercase dialect) known_dialect_names ->
   Sqloxide.string_to_dialect to_lowercase dialect = (GenericDialect, [dialect_fallback_notice])).
Proof.
  split; [|apply string_to_dialect_unknown].
  destruct (in_dec (list_eq_dec N.eq_dec) (to_lowercase dialect) known_dialect_names) as [Hin|Hnin].
  - split; [intros _; exact Hin|intros _].
    unfold Sqloxide.string_to_dialect.
    remember (to_lowercase dialect) as d eqn:Ed; clear Ed.
    unfold known_dialect_names in Hin; simpl in Hin.
    repeat destruct Hin as [<- | Hin]; [reflexivity ..|contradiction].
  - rewrite (string_to_dialect_unknown _ _ Hnin). simpl. split; [discriminate|contradiction].
Qed.

Lemma rows_loop_prefix value sh rows extra idx acc :
  Forall (fun i => (i < List.length rows)%nat) idx ->
  rows_loop value {| shape := sh; rows_of := rows ++ extra |} idx acc
  = rows_loop value {| shape := sh; rows_of := rows |} idx acc.
Proof.
  intros HF. revert acc. induction HF as [|i idx Hi HF IH]; intros acc; [reflexivity|].
  simpl. unfold get_row. simpl. rewrite nth_error_app1 by exact Hi.
  destruct (nth_error rows i); simpl; [|reflexivity].
  destruct (scan_row value l); simpl; [apply IH|reflexivity].
Qed.

(** [anyop_eq_string] reads no row past [shape[0]]. *)
Theorem anyop_eq_string_ignores_extra_rows value n rows extra
    (Hn : (N.to_nat n <= List.length rows)%nat) :
  anyop_eq_string value {| shape := Some [n]; rows_of := rows ++ extra |}
  = anyop_eq_string value {| shape := Some [n]; rows_of := rows |}.
Proof.
  unfold anyop_eq_string. cbn [shape res_bind extract_usize_1tuple].
  destruct (n <? 2 ^ 64); cbn [res_bind]; [|reflexivity].
  apply rows_loop_prefix. apply Forall_forall. intros i Hi.
  apply in_seq in Hi. lia.
Qed.

Lemma anyop_eq_string_ignores_extra_rows_witness :
  anyop_eq_string (lit "a") {| shape := Some [1]; rows_of := [[pystr "a"]] ++ [[PyOther "int"]] |}
  = Ok [true].
Proof.
  rewrite (anyop_eq_string_ignores_extra_rows (lit "a") 1 [[pystr "a"]] [[PyOther "int"]]) by (simpl; lia).
  reflexivity.
Defined.
